(** * protoc-gen-grpc-go-service: the generator of gRPC server skeletons

    A shallow embedding of [main.go]: the descriptor data handed over by
    protoc, the [params]/[method] view built by [parseRequest], the
    [text/template] program [tmpl], the loop of [generateResponse], and the
    behaviour of the four method bodies the template writes.

    Go strings are byte strings ([string], one [ascii] per byte), optional
    protobuf fields ([*string], [*bool]) are [option]s, slices are lists, an
    [error] interface value is an [option error] with [None] for nil. *)

From Stdlib Require Import String Ascii List Bool Arith Lia.
Import ListNotations.
Local Open Scope string_scope.
Local Open Scope list_scope.

(** ** Characters the template needs *)

Definition nl : string := String "010"%char EmptyString.
Definition tab : string := String "009"%char EmptyString.
Definition dq : string := String "034"%char EmptyString.

(** ** Package [strings] *)

(** [strings.HasPrefix(s, prefix)]. *)
Definition HasPrefix (s prefix : string) : bool := String.prefix prefix s.

(** [strings.TrimPrefix(s, prefix)]: [s] without the leading [prefix], once;
    [s] itself when it does not start with [prefix]. *)
Definition TrimPrefix (s prefix : string) : string :=
  if HasPrefix s prefix
  then substring (String.length prefix) (String.length s - String.length prefix) s
  else s.

(** A byte below [utf8.RuneSelf] (0x80). *)
Definition isASCIIByte (c : ascii) : bool := (nat_of_ascii c <? 128)%nat.

Definition isUpperByte (c : ascii) : bool :=
  ((65 <=? nat_of_ascii c) && (nat_of_ascii c <=? 90))%nat.

(** [c += 'a' - 'A'] on the bytes ['A'..'Z'], the others unchanged. *)
Definition lowerByte (c : ascii) : ascii :=
  if isUpperByte c then ascii_of_nat (nat_of_ascii c + 32) else c.

Fixpoint allBytes (f : ascii -> bool) (s : string) : bool :=
  match s with
  | EmptyString => true
  | String c s' => f c && allBytes f s'
  end.

Fixpoint anyByte (f : ascii -> bool) (s : string) : bool :=
  match s with
  | EmptyString => false
  | String c s' => f c || anyByte f s'
  end.

Fixpoint mapBytes (f : ascii -> ascii) (s : string) : string :=
  match s with
  | EmptyString => EmptyString
  | String c s' => String (f c) (mapBytes f s')
  end.

(** [strings.ToLower(s)]. The ASCII-only path is the one of the Go library:
    the string itself when it has no upper-case byte, else its bytes
    lowered. A string with a byte from 0x80 on goes through
    [strings.Map(unicode.ToLower, s)], which rests on the Unicode tables:
    that map is the argument [unicodeLower]. *)
Definition ToLower (unicodeLower : string -> string) (s : string) : string :=
  if allBytes isASCIIByte s
  then if anyByte isUpperByte s then mapBytes lowerByte s else s
  else unicodeLower s.

(** ** Errors *)

(** Go [error] values. [io_EOF] is the sentinel [io.EOF]; every other error
    is told apart by its text. A nil error is [None : option error]. *)
Inductive error : Type :=
| io_EOF
| errorString (text : string).

Definition error_eqb (a b : error) : bool :=
  match a, b with
  | io_EOF, io_EOF => true
  | errorString x, errorString y => String.eqb x y
  | _, _ => false
  end.

(** ** Package [descriptor]: what protoc sends *)

Module MethodDescriptorProto.
Record t : Type := mk {
  Name : option string;
  InputType : option string;
  OutputType : option string;
  ClientStreaming : option bool;
  ServerStreaming : option bool
}.
Definition GetName (m : t) : string :=
  match Name m with Some s => s | None => EmptyString end.
Definition GetInputType (m : t) : string :=
  match InputType m with Some s => s | None => EmptyString end.
Definition GetOutputType (m : t) : string :=
  match OutputType m with Some s => s | None => EmptyString end.
Definition GetClientStreaming (m : t) : bool :=
  match ClientStreaming m with Some b => b | None => false end.
Definition GetServerStreaming (m : t) : bool :=
  match ServerStreaming m with Some b => b | None => false end.
End MethodDescriptorProto.

Module ServiceDescriptorProto.
Record t : Type := mk {
  Name : option string;
  Method : list MethodDescriptorProto.t
}.
Definition GetName (s : t) : string :=
  match Name s with Some n => n | None => EmptyString end.
Definition GetMethod (s : t) : list MethodDescriptorProto.t := Method s.
End ServiceDescriptorProto.

Module FileDescriptorProto.
Record t : Type := mk {
  Name : option string;
  Package : option string;
  Service : list ServiceDescriptorProto.t
}.
Definition GetName (f : t) : string :=
  match Name f with Some n => n | None => EmptyString end.
Definition GetPackage (f : t) : string :=
  match Package f with Some n => n | None => EmptyString end.
Definition GetService (f : t) : list ServiceDescriptorProto.t := Service f.
End FileDescriptorProto.

(** ** Package [plugin]: request and response of a protoc plugin *)

Record CodeGeneratorRequest : Type := {
  ProtoFile : list FileDescriptorProto.t
}.
Definition GetProtoFile (req : CodeGeneratorRequest) : list FileDescriptorProto.t :=
  ProtoFile req.

Record CodeGeneratorResponse_File : Type := {
  File_Name : option string;
  File_Content : option string
}.

Record CodeGeneratorResponse : Type := {
  File : list CodeGeneratorResponse_File
}.

(** ** [params] and [method]: the data provided to the template *)

(** [type method struct { descriptor.MethodDescriptorProto; serviceName string }] *)
Record method : Type := {
  method_MethodDescriptorProto : MethodDescriptorProto.t;
  serviceName : string
}.

(** [type params struct { descriptor.ServiceDescriptorProto; ProtoName,
    PackageName string; Methods []method; fileName string }] *)
Record params : Type := {
  params_ServiceDescriptorProto : ServiceDescriptorProto.t;
  ProtoName : string;
  PackageName : string;
  Methods : list method;
  fileName : string
}.

(** The promoted method [p.GetName()] of the embedded
    [ServiceDescriptorProto]: the name of the service. *)
Definition params_GetName (p : params) : string :=
  ServiceDescriptorProto.GetName (params_ServiceDescriptorProto p).

(** Promoted getters of the embedded [MethodDescriptorProto]. *)
Definition method_GetName (m : method) : string :=
  MethodDescriptorProto.GetName (method_MethodDescriptorProto m).
Definition method_GetInputType (m : method) : string :=
  MethodDescriptorProto.GetInputType (method_MethodDescriptorProto m).
Definition method_GetOutputType (m : method) : string :=
  MethodDescriptorProto.GetOutputType (method_MethodDescriptorProto m).
Definition method_GetClientStreaming (m : method) : bool :=
  MethodDescriptorProto.GetClientStreaming (method_MethodDescriptorProto m).
Definition method_GetServerStreaming (m : method) : bool :=
  MethodDescriptorProto.GetServerStreaming (method_MethodDescriptorProto m).

(** The methods used by the template. *)
Definition TrimmedInput (m : method) : string :=
  TrimPrefix (method_GetInputType m) ".".
Definition TrimmedOutput (m : method) : string :=
  TrimPrefix (method_GetOutputType m) ".".
(** [fmt.Sprintf("%s_%sServer", m.serviceName, m.GetName())] *)
Definition StreamName (m : method) : string :=
  serviceName m ++ "_" ++ method_GetName m ++ "Server".

(** ** [parseRequest] *)

(** The inner loop over [p.ServiceDescriptorProto.GetMethod()], appending one
    [method] per descriptor to [p.Methods]. *)
Definition appendMethods (svc : ServiceDescriptorProto.t) (ms : list method) :
  list method :=
  fold_left
    (fun ms mtd =>
       ms ++ [ {| method_MethodDescriptorProto := mtd;
                  serviceName := ServiceDescriptorProto.GetName svc |} ])
    (ServiceDescriptorProto.GetMethod svc) ms.

(** The [params] literal of one service with its methods filled in; the
    field [fileName] is never assigned and keeps its zero value. *)
Definition serviceParams (pf : FileDescriptorProto.t)
  (svc : ServiceDescriptorProto.t) : params :=
  {| params_ServiceDescriptorProto := svc;
     ProtoName := FileDescriptorProto.GetName pf;
     PackageName := FileDescriptorProto.GetPackage pf;
     Methods := appendMethods svc [];
     fileName := EmptyString |}.

Definition parseRequest (req : CodeGeneratorRequest) : list params :=
  fold_left
    (fun ps pf =>
       fold_left (fun ps svc => ps ++ [serviceParams pf svc])
         (FileDescriptorProto.GetService pf) ps)
    (GetProtoFile req) [].

(** ** The template [tmpl]

    [tmpl.Execute(w, p)] writes the template text with every action replaced
    by its value. The text is kept line by line, with [nl] for the line
    breaks of the raw string, [tab] for its tabs and [dq] for its double
    quotes. None of the actions can fail on a [params] value (every field
    and method the template names exists, and a [bytes.Buffer] takes every
    write), so the execution is a total function to the text written. *)

(** How the template prints the field [.Name] of a method, a [*string]: the
    string pointed to, and what [fmt] prints for a nil pointer otherwise. *)
Definition printName (m : method) : string :=
  match MethodDescriptorProto.Name (method_MethodDescriptorProto m) with
  | Some s => s
  | None => "<nil>"
  end.

(** The text before [{{ range .Methods }}]. *)
Definition tmplPreamble (p : params) : string :=
  nl ++
  "// Code initially generated by protoc-gen-grpc-goservice" ++ nl ++
  "// source: " ++ ProtoName p ++ nl ++
  nl ++
  "package main" ++ nl ++
  nl ++
  "import (" ++ nl ++
  tab ++ dq ++ "io" ++ dq ++ nl ++
  nl ++
  tab ++ dq ++ "golang.org/x/net/context" ++ dq ++ nl ++
  ")" ++ nl ++
  nl ++
  "type service struct{}" ++ nl ++
  nl.

(** Both flags set: the text between the inner [if] and its [else]. *)
Definition tmplBidiStreaming (p : params) (m : method) : string :=
  nl ++
  "// " ++ printName m ++ " streams outputs and listens to a stream of inputs." ++ nl ++
  "func (s *service) " ++ printName m ++ "(stream " ++ PackageName p ++ "." ++ StreamName m ++ ") error {" ++ nl ++
  tab ++ "for {" ++ nl ++
  tab ++ tab ++ "input, err := stream.Recv()" ++ nl ++
  tab ++ tab ++ "if err == io.EOF {" ++ nl ++
  tab ++ tab ++ tab ++ "return nil" ++ nl ++
  tab ++ tab ++ "}" ++ nl ++
  tab ++ tab ++ "if err != nil {" ++ nl ++
  tab ++ tab ++ tab ++ "return err" ++ nl ++
  tab ++ tab ++ "}" ++ nl ++
  nl ++
  tab ++ tab ++ "// TODO: Do something with input" ++ nl ++
  tab ++ tab ++ "_ = input" ++ nl ++
  nl ++
  tab ++ tab ++ "// TODO: Stream some meaningful output" ++ nl ++
  tab ++ tab ++ "if err := stream.Send(&" ++ TrimmedOutput m ++ "{}); err != nil {" ++ nl ++
  tab ++ tab ++ tab ++ "return err" ++ nl ++
  tab ++ tab ++ "}" ++ nl ++
  tab ++ "}" ++ nl ++
  nl ++
  tab ++ "return nil" ++ nl ++
  "}" ++ nl ++
  tab ++ tab.

(** Client streaming only: the text between the inner [else] and [end]. *)
Definition tmplClientStreaming (p : params) (m : method) : string :=
  nl ++
  "// " ++ printName m ++ " sends a single output for a streamed input." ++ nl ++
  "func (s *service) " ++ printName m ++ "(stream " ++ PackageName p ++ "." ++ StreamName m ++ ") error {" ++ nl ++
  tab ++ "for {" ++ nl ++
  tab ++ tab ++ "input, err := stream.Recv()" ++ nl ++
  tab ++ tab ++ "if err == io.EOF {" ++ nl ++
  tab ++ tab ++ tab ++ "// TODO: Send some meaningful output" ++ nl ++
  tab ++ tab ++ tab ++ "return stream.SendAndClose(&" ++ TrimmedOutput m ++ "{})" ++ nl ++
  tab ++ tab ++ "}" ++ nl ++
  tab ++ tab ++ "if err != nil {" ++ nl ++
  tab ++ tab ++ tab ++ "return err" ++ nl ++
  tab ++ tab ++ "}" ++ nl ++
  nl ++
  tab ++ tab ++ "// TODO: Do something with the input message" ++ nl ++
  tab ++ tab ++ "_ = input" ++ nl ++
  tab ++ "}" ++ nl ++
  nl ++
  tab ++ "return nil" ++ nl ++
  "}" ++ nl ++
  tab ++ tab.

(** Server streaming only. *)
Definition tmplServerStreaming (p : params) (m : method) : string :=
  nl ++
  "// " ++ printName m ++ " streams output for a single input." ++ nl ++
  "func (s *service) " ++ printName m ++ "(input *" ++ TrimmedInput m ++ ", stream " ++ PackageName p ++ "." ++ StreamName m ++ ") error {" ++ nl ++
  tab ++ "// TODO: Do something with the input" ++ nl ++
  tab ++ "_ = input" ++ nl ++
  nl ++
  tab ++ "// TODO: Stream some meaningful output" ++ nl ++
  tab ++ "for i := 0; i < 10; i++ {" ++ nl ++
  tab ++ tab ++ "if err := stream.Send(&" ++ TrimmedOutput m ++ "{}); err != nil {" ++ nl ++
  tab ++ tab ++ tab ++ "return err" ++ nl ++
  tab ++ tab ++ "}" ++ nl ++
  tab ++ "}" ++ nl ++
  nl ++
  tab ++ "return nil" ++ nl ++
  "}" ++ nl ++
  tab ++ tab.

(** Neither flag set. *)
Definition tmplUnary (m : method) : string :=
  nl ++
  "// " ++ printName m ++ " sends a single output for a single input." ++ nl ++
  "func (s *service) " ++ printName m ++ "(ctx context.Context, input *" ++ TrimmedInput m ++ ") (*" ++ TrimmedOutput m ++ ", error) {" ++ nl ++
  tab ++ "// TODO: Do something with the input" ++ nl ++
  tab ++ "_ = input" ++ nl ++
  nl ++
  tab ++ "// TODO: Send some meaningful output" ++ nl ++
  tab ++ "return &" ++ TrimmedOutput m ++ "{}, nil" ++ nl ++
  "}" ++ nl ++
  tab ++ tab.

(** One pass of [{{ range .Methods }} ... {{ end }}] with the dot at [m]
    and [$] at [p]: the two nested [if]s of the template. *)
Definition tmplMethod (p : params) (m : method) : string :=
  nl ++ tab ++
  (if method_GetClientStreaming m
   then
     nl ++ tab ++ tab ++
     (if method_GetServerStreaming m
      then tmplBidiStreaming p m
      else tmplClientStreaming p m) ++
     nl ++ tab
   else
     nl ++ tab ++ tab ++
     (if method_GetServerStreaming m
      then tmplServerStreaming p m
      else tmplUnary m) ++
     nl ++ tab) ++
  nl ++ nl.

(** The [range] action: its body once per element, in order. *)
Fixpoint tmplRange (p : params) (ms : list method) : string :=
  match ms with
  | [] => EmptyString
  | m :: ms' => tmplMethod p m ++ tmplRange p ms'
  end.

(** The text [tmpl.Execute(w, p)] leaves in [w]. *)
Definition tmplExecute (p : params) : string :=
  tmplPreamble p ++ tmplRange p (Methods p) ++ nl.

(** ** The shape of a method

    The template has no name for it: the four texts are chosen by
    [{{ if .GetClientStreaming }}] around [{{ if .GetServerStreaming }}].
    [classify] is that choice, and [tmplShape] the text of each shape. *)

Inductive RPCShape : Type :=
| Unary
| ServerStreaming
| ClientStreaming
| BidiStreaming.

Definition classify (clientStreaming serverStreaming : bool) : RPCShape :=
  if clientStreaming
  then if serverStreaming then BidiStreaming else ClientStreaming
  else if serverStreaming then ServerStreaming else Unary.

Definition tmplShape (shape : RPCShape) (p : params) (m : method) : string :=
  match shape with
  | Unary => tmplUnary m
  | ServerStreaming => tmplServerStreaming p m
  | ClientStreaming => tmplClientStreaming p m
  | BidiStreaming => tmplBidiStreaming p m
  end.

(** ** What the generated methods do

    The template writes Go functions; their bodies are embedded here as
    functions over the gRPC stream they are handed. A stream is driven by
    the remote peer and the transport, so its answers are a script
    ([peer]): what the k-th [Recv] returns, what the k-th [Send] returns
    for a message, what [SendAndClose] returns. The [stream] value counts
    the calls made so far and keeps their [history]. *)

(** A protobuf message value: the name of its Go type and the fields that
    are set. [&T{}] is the message of type [T] with no field set. *)
Record message : Type := {
  message_type : string;
  message_fields : list (string * string)
}.

Definition zeroValue (T : string) : message :=
  {| message_type := T; message_fields := [] |}.

Inductive event : Type :=
| EvRecv
| EvSend (msg : message)
| EvSendAndClose (msg : message).

Record peer : Type := {
  recvResult : nat -> option message * option error;
  sendResult : nat -> message -> option error;
  sendAndCloseResult : message -> option error
}.

Record stream : Type := {
  received : nat;
  sent : nat;
  history : list event
}.

(** [stream.Recv()] *)
Definition Recv (remote : peer) (st : stream) :
  (option message * option error) * stream :=
  (recvResult remote (received st),
   {| received := S (received st); sent := sent st;
      history := history st ++ [EvRecv] |}).

(** [stream.Send(msg)] *)
Definition Send (remote : peer) (msg : message) (st : stream) :
  option error * stream :=
  (sendResult remote (sent st) msg,
   {| received := received st; sent := S (sent st);
      history := history st ++ [EvSend msg] |}).

(** [stream.SendAndClose(msg)] *)
Definition SendAndClose (remote : peer) (msg : message) (st : stream) :
  option error * stream :=
  (sendAndCloseResult remote msg,
   {| received := received st; sent := sent st;
      history := history st ++ [EvSendAndClose msg] |}).

(** [err == io.EOF] *)
Definition isEOF (err : option error) : bool :=
  match err with
  | Some e => error_eqb e io_EOF
  | None => false
  end.

(** A call of a function whose loop has no bound of its own is run with
    fuel, one unit per turn of the loop: it has [Returned] a value, or is
    [StillRunning] when the fuel is spent. *)
Inductive completion (A : Type) : Type :=
| Returned (a : A)
| StillRunning.
Arguments Returned {A} a.
Arguments StillRunning {A}.


(** Server streaming: the loop [for i := 0; i < 10; i++] with [todo] turns
    left ([todo] is [10 - i]); a failed [Send] returns its error at once,
    and [return nil] follows the last turn. *)
Fixpoint ServerStreamingLoop (remote : peer) (m : method) (todo : nat)
  (st : stream) : option error * stream :=
  match todo with
  | 0 => (None, st)
  | S todo' =>
      let '(err, st1) := Send remote (zeroValue (TrimmedOutput m)) st in
      match err with
      | Some e => (Some e, st1)
      | None => ServerStreamingLoop remote m todo' st1
      end
  end.

Definition ServerStreamingBody (remote : peer) (m : method)
  (input : option message) (st : stream) : option error * stream :=
  let _ := input in
  ServerStreamingLoop remote m 10 st.

(** Client streaming: [for { input, err := stream.Recv(); ... }]. *)
Fixpoint ClientStreamingBody (remote : peer) (m : method) (fuel : nat)
  (st : stream) : completion (option error) * stream :=
  match fuel with
  | 0 => (StillRunning, st)
  | S fuel' =>
      let '((input, err), st1) := Recv remote st in
      if isEOF err
      then
        let '(r, st2) := SendAndClose remote (zeroValue (TrimmedOutput m)) st1 in
        (Returned r, st2)
      else
        match err with
        | Some e => (Returned (Some e), st1)
        | None => let _ := input in ClientStreamingBody remote m fuel' st1
        end
  end.

(** Both directions streaming: a [Send] after every [Recv] that gave a
    message. *)
Fixpoint BidiStreamingBody (remote : peer) (m : method) (fuel : nat)
  (st : stream) : completion (option error) * stream :=
  match fuel with
  | 0 => (StillRunning, st)
  | S fuel' =>
      let '((input, err), st1) := Recv remote st in
      if isEOF err
      then (Returned None, st1)
      else
        match err with
        | Some e => (Returned (Some e), st1)
        | None =>
            let _ := input in
            let '(err', st2) := Send remote (zeroValue (TrimmedOutput m)) st1 in
            match err' with
            | Some e => (Returned (Some e), st2)
            | None => BidiStreamingBody remote m fuel' st2
            end
        end
  end.



(** ** [generateResponse] and [main] *)

(** [log.WithErr(err).Fatal(msg)] ends the process: a function either comes
    back with a value or the run is over with that message and error. *)
Inductive outcome (A : Type) : Type :=
| Ok (a : A)
| Fatal (msg : string) (err : error).
Arguments Ok {A} a.
Arguments Fatal {A} msg err.

Definition andThen {A B : Type} (x : outcome A) (k : A -> outcome B) : outcome B :=
  match x with
  | Ok a => k a
  | Fatal msg err => Fatal msg err
  end.

Section Generator.

(** What the program takes from libraries that are not its own:
    [strings.Map(unicode.ToLower, _)] behind [strings.ToLower],
    [format.Source] of [go/format], and [proto.Unmarshal] and
    [proto.Marshal] at the request and the response. *)
Variable unicodeLower : string -> string.
Variable format_Source : string -> string + error.
Variable proto_Unmarshal : string -> CodeGeneratorRequest + error.
Variable proto_Marshal : CodeGeneratorResponse -> string + error.

(** The loop [for _, p := range ps] with the response built so far. *)
Fixpoint generateResponseLoop (ps : list params) (resp : CodeGeneratorResponse) :
  outcome CodeGeneratorResponse :=
  match ps with
  | [] => Ok resp
  | p :: ps' =>
      let w := tmplExecute p in
      match format_Source w with
      | inr err => Fatal "unable to go-fmt output" err
      | inl fmted =>
          let fileName := (ToLower unicodeLower (params_GetName p) ++ ".go")%string in
          let fileContent := fmted in
          generateResponseLoop ps'
            {| File := File resp ++
                 [ {| File_Name := Some fileName;
                      File_Content := Some fileContent |} ] |}
      end
  end.

Definition generateResponse (ps : list params) : outcome CodeGeneratorResponse :=
  generateResponseLoop ps {| File := [] |}.

(** [decodeRequest(r)], with [r] given by what [ioutil.ReadAll(r)] returns. *)
Definition decodeRequest (r : string + error) : outcome CodeGeneratorRequest :=
  match r with
  | inr err => Fatal "unable to read stdin" err
  | inl input =>
      match proto_Unmarshal input with
      | inr err => Fatal "unable to marshal stdin as protobuf" err
      | inl req => Ok req
      end
  end.

(** [encodeResponse(resp, w)], with [w] given by what [w.Write] returns for
    the bytes; the value is the bytes written. *)
Definition encodeResponse (resp : CodeGeneratorResponse)
  (w : string -> option error) : outcome string :=
  match proto_Marshal resp with
  | inr err => Fatal "unable to marshal response to protobuf" err
  | inl outBytes =>
      match w outBytes with
      | Some err => Fatal "unable to write protobuf to stdout" err
      | None => Ok outBytes
      end
  end.

(** [main]: the bytes it wrote to standard output, or the fatal end. *)
Definition main (stdin : string + error) (stdout : string -> option error) :
  outcome string :=
  andThen (decodeRequest stdin) (fun req =>
  andThen (generateResponse (parseRequest req)) (fun resp =>
  encodeResponse resp stdout)).

End Generator.

(** ** Sample data

    A request of one file [Foo.proto], package [pkg], with the service
    [Greeter] and no method; a request of two files with one service of two
    methods each; stand-ins for the libraries (a formatter that takes every
    text as it is, a Unicode map that changes nothing). *)

Definition fooRequest : CodeGeneratorRequest :=
  {| ProtoFile :=
       [ FileDescriptorProto.mk (Some "Foo.proto") (Some "pkg")
           [ ServiceDescriptorProto.mk (Some "Greeter") [] ] ] |}.

Definition rpc (name input output : string) (clientStreaming serverStreaming : bool) :
  MethodDescriptorProto.t :=
  MethodDescriptorProto.mk (Some name) (Some input) (Some output)
    (Some clientStreaming) (Some serverStreaming).


Definition keepText (s : string) : string + error := inl s.
Definition sameBytes (s : string) : string := s.

(** A formatter stand-in that refuses a text in which a method without a
    name was printed, and takes every other text as it is. *)
Definition refuseNil (s : string) : string + error :=
  match index 0 "<nil>" s with
  | Some _ => inr (errorString "expected 'IDENT', found '<'")
  | None => inl s
  end.

(** A file whose second service has a method with no name. *)
Definition alphaService : ServiceDescriptorProto.t :=
  ServiceDescriptorProto.mk (Some "Alpha")
    [ rpc "Get" ".pkg.Req" ".pkg.Resp" false false ].

Definition namelessService : ServiceDescriptorProto.t :=
  ServiceDescriptorProto.mk (Some "Beta")
    [ MethodDescriptorProto.mk None (Some ".pkg.Req") (Some ".pkg.Resp") None None ].

Definition namelessFile : FileDescriptorProto.t :=
  FileDescriptorProto.mk (Some "a.proto") (Some "pkg") [ alphaService; namelessService ].

Definition namelessRequest : CodeGeneratorRequest :=
  {| ProtoFile := [ namelessFile ] |}.

(** Methods of the service [Greeter] from [pkg.Req] to [pkg.Resp], one of
    each streaming shape. *)
Definition listMethod : method :=
  {| method_MethodDescriptorProto := rpc "List" ".pkg.Req" ".pkg.Resp" false true;
     serviceName := "Greeter" |}.



(** A peer that sends [inputs] messages and then ends its side with
    [last], takes every message sent to it except the one numbered
    [refused], if any, and takes the closing message. *)
Definition scriptedPeer (inputs : nat) (last : option error)
  (refused : option (nat * error)) : peer :=
  {| recvResult := fun k =>
       if (k <? inputs)%nat
       then (Some {| message_type := "pkg.Req"; message_fields := [] |}, None)
       else (None, last);
     sendResult := fun k _ =>
       match refused with
       | Some (j, e) => if (k =? j)%nat then Some e else None
       | None => None
       end;
     sendAndCloseResult := fun _ => None |}.

Definition freshStream : stream :=
  {| received := 0; sent := 0; history := [] |}.

(** [n] turns of a loop that receives and then sends [msg]. *)
Fixpoint exchanges (msg : message) (n : nat) : list event :=
  match n with
  | 0 => []
  | S n' => EvRecv :: EvSend msg :: exchanges msg n'
  end.

(** ** What a response is expected to hold *)

(** The services of a request with the file each stands in: file order,
    then service order within a file. *)
Definition services (req : CodeGeneratorRequest) :
  list (FileDescriptorProto.t * ServiceDescriptorProto.t) :=
  flat_map (fun pf => map (pair pf) (FileDescriptorProto.GetService pf))
    (GetProtoFile req).

(** The [method] value [parseRequest] makes of a descriptor of [svc]. *)
Definition methodOf (svc : ServiceDescriptorProto.t) (mtd : MethodDescriptorProto.t) :
  method :=
  {| method_MethodDescriptorProto := mtd;
     serviceName := ServiceDescriptorProto.GetName svc |}.

(** The formatter takes the text rendered for [p]. *)
Definition accepted (format_Source : string -> string + error) (p : params) : Prop :=
  exists fmted, format_Source (tmplExecute p) = inl fmted.

Definition formatted (format_Source : string -> string + error) (p : params) :
  option string :=
  match format_Source (tmplExecute p) with
  | inl fmted => Some fmted
  | inr _ => None
  end.

(** The file of one service: named after the service, holding the
    formatted text. *)
Definition generatedFile (unicodeLower : string -> string)
  (format_Source : string -> string + error) (p : params) :
  CodeGeneratorResponse_File :=
  {| File_Name := Some (ToLower unicodeLower (params_GetName p) ++ ".go")%string;
     File_Content := formatted format_Source p |}.


(** ** The parts of the preamble *)

(** The header comment, which names the proto file. *)
Definition tmplHeader (protoName : string) : string :=
  nl ++
  "// Code initially generated by protoc-gen-grpc-goservice" ++ nl ++
  "// source: " ++ protoName ++ nl ++
  nl.

Definition tmplImports : string :=
  "import (" ++ nl ++
  tab ++ dq ++ "io" ++ dq ++ nl ++
  nl ++
  tab ++ dq ++ "golang.org/x/net/context" ++ dq ++ nl ++
  ")" ++ nl.

(** The package clause, the imports and the type of the implementation:
    text of the template with no action in it. *)
Definition tmplDeclarations : string :=
  "package main" ++ nl ++
  nl ++
  tmplImports ++
  nl ++
  "type service struct{}" ++ nl ++
  nl.



(** ** The lines of a text *)

Definition isLineBreak (c : ascii) : bool := Ascii.eqb c "010".

Definition noLineBreak (s : string) : bool :=
  allBytes (fun c => negb (isLineBreak c)) s.

(** [x] put in front of the first line of [ls]. *)
Definition onFirstLine (x : string) (ls : list string) : list string :=
  match ls with
  | l :: ls' => (x ++ l)%string :: ls'
  | [] => [x]
  end.

(** The lines of a text, split at the line breaks: a text with [n] line
    breaks has [n + 1] lines, the last one being what follows the last
    break. *)
Fixpoint lines (s : string) : list string :=
  match s with
  | EmptyString => [EmptyString]
  | String c s' =>
      if isLineBreak c then EmptyString :: lines s'
      else onFirstLine (String c EmptyString) (lines s')
  end.

(** A line that opens, in its first column, with one of the keywords that
    start a declaration of a Go file. *)
Definition isDeclLine (l : string) : bool :=
  HasPrefix l "func " || HasPrefix l "type " || HasPrefix l "package " ||
  HasPrefix l "import ".

Definition isCommentOrBlank (l : string) : bool :=
  String.eqb l EmptyString || HasPrefix l "//".

(** The first line of a text that is neither empty nor a [//] comment. *)
Definition firstCodeLine (s : string) : option string :=
  find (fun l => negb (isCommentOrBlank l)) (lines s).

(** The line of the template that opens the function of a method. *)
Definition funcHead (p : params) (m : method) : string :=
  "func (s *service) " ++ printName m ++
  match classify (method_GetClientStreaming m) (method_GetServerStreaming m) with
  | Unary =>
      "(ctx context.Context, input *" ++ TrimmedInput m ++ ") (*" ++
      TrimmedOutput m ++ ", error) {"
  | ServerStreaming =>
      "(input *" ++ TrimmedInput m ++ ", stream " ++ PackageName p ++ "." ++
      StreamName m ++ ") error {"
  | ClientStreaming | BidiStreaming =>
      "(stream " ++ PackageName p ++ "." ++ StreamName m ++ ") error {"
  end.

(** No string of the descriptor that reaches the text holds a line break. *)
Definition methodLineSafe (m : method) : bool :=
  noLineBreak (serviceName m) &&
  match MethodDescriptorProto.Name (method_MethodDescriptorProto m) with
  | Some s => noLineBreak s
  | None => true
  end &&
  noLineBreak (method_GetInputType m) &&
  noLineBreak (method_GetOutputType m).

Definition lineSafe (p : params) : bool :=
  noLineBreak (ProtoName p) && noLineBreak (PackageName p) &&
  forallb methodLineSafe (Methods p).

(** A service with a method of each shape, and a file whose name holds a
    line break. *)
Definition greeterService : ServiceDescriptorProto.t :=
  ServiceDescriptorProto.mk (Some "Greeter")
    [ rpc "Get" ".pkg.Req" ".pkg.Resp" false false;
      rpc "List" ".pkg.Req" ".pkg.Resp" false true;
      rpc "Put" ".pkg.Req" ".pkg.Resp" true false;
      rpc "Chat" ".pkg.Req" ".pkg.Resp" true true ].

Definition greeterFile : FileDescriptorProto.t :=
  FileDescriptorProto.mk (Some "greeter.proto") (Some "pkg") [ greeterService ].

Definition brokenNameFile : FileDescriptorProto.t :=
  FileDescriptorProto.mk (Some ("greeter.proto" ++ nl ++ "var hidden = 1")%string)
    (Some "pkg") [ greeterService ].





(** [s] ends with [suffix]. *)
Definition HasSuffix (s suffix : string) : bool :=
  (String.length suffix <=? String.length s)%nat &&
  String.eqb (substring (String.length s - String.length suffix)
                (String.length suffix) s) suffix.

(** * Properties *)

(** ** Strings *)

Lemma substring_whole (s : string) : substring 0 (String.length s) s = s.
Proof.
  induction s as [|c s IH]; simpl; [reflexivity | now rewrite IH].
Qed.

Lemma string_app_assoc (a b c : string) : ((a ++ b) ++ c = a ++ (b ++ c))%string.
Proof.
  induction a as [|x a IH]; simpl; [reflexivity | now rewrite IH].
Qed.

Lemma string_app_nil_r (a : string) : (a ++ EmptyString = a)%string.
Proof.
  induction a as [|x a IH]; simpl; [reflexivity | now rewrite IH].
Qed.

Lemma prefix_empty (s : string) : String.prefix EmptyString s = true.
Proof. destruct s; reflexivity. Qed.

Lemma prefix_cons (a b : ascii) (s1 s2 : string) :
  String.prefix (String a s1) (String b s2) =
  if ascii_dec a b then String.prefix s1 s2 else false.
Proof. reflexivity. Qed.

(** [TrimPrefix] with the one-byte prefix ["."] by cases on the string. *)
Lemma TrimPrefix_dot_empty : TrimPrefix EmptyString "." = EmptyString.
Proof. reflexivity. Qed.

Lemma TrimPrefix_dot_cons (c : ascii) (s : string) :
  TrimPrefix (String c s) "." = if Ascii.eqb c "." then s else String c s.
Proof.
  unfold TrimPrefix, HasPrefix. rewrite prefix_cons, prefix_empty.
  destruct (ascii_dec "." c) as [<-|Hne].
  - cbn. rewrite Nat.sub_0_r. now rewrite substring_whole.
  - destruct (Ascii.eqb_spec c "."%char) as [->|_]; [now elim Hne | reflexivity].
Qed.

Lemma HasPrefix_dotdot (s : string) :
  HasPrefix s ".." = true <-> exists r, s = String "." (String "." r).
Proof.
  unfold HasPrefix. split.
  - destruct s as [|a [|b r]]; try discriminate.
    + rewrite prefix_cons. destruct (ascii_dec "." a); discriminate.
    + rewrite !prefix_cons, prefix_empty.
      destruct (ascii_dec "." a) as [<-|]; [|discriminate].
      destruct (ascii_dec "." b) as [<-|]; [|discriminate].
      intros _. now exists r.
  - intros [r ->]. rewrite !prefix_cons, prefix_empty.
    destruct (ascii_dec "." "."); [reflexivity|congruence].
Qed.

Lemma String_neq_tail (c : ascii) (s : string) : s <> String c s.
Proof.
  intros H. apply (f_equal String.length) in H. simpl in H. lia.
Qed.

Lemma TrimPrefix_dot_stable (s : string) :
  TrimPrefix (TrimPrefix s ".") "." = TrimPrefix s "." <->
  HasPrefix s ".." = false.
Proof.
  destruct s as [|a s].
  - split; reflexivity.
  - rewrite TrimPrefix_dot_cons.
    destruct (Ascii.eqb_spec a "."%char) as [->|Ha].
    + destruct s as [|b s].
      * split; reflexivity.
      * rewrite TrimPrefix_dot_cons.
        destruct (Ascii.eqb_spec b "."%char) as [->|Hb].
        -- split.
           ++ intros H. exfalso. exact (String_neq_tail _ _ H).
           ++ intros H. exfalso.
              assert (HasPrefix (String "." (String "." s)) ".." = true) as E
                by (apply HasPrefix_dotdot; now exists s).
              congruence.
        -- split; [|reflexivity].
           intros _. destruct (HasPrefix (String "." (String b s)) "..") eqn:E; [|reflexivity].
           apply HasPrefix_dotdot in E as [r E]. congruence.
    + rewrite TrimPrefix_dot_cons.
      destruct (Ascii.eqb_spec a "."%char) as [->|_]; [now elim Ha|].
      split; [|reflexivity].
      intros _. destruct (HasPrefix (String a s) "..") eqn:E; [|reflexivity].
      apply HasPrefix_dotdot in E as [r E]. congruence.
Qed.

(** C2 (as stated) fails: the input type ["..pkg.Req"] is stripped to
    [".pkg.Req"] by [TrimmedInput], and stripping that again gives
    ["pkg.Req"]. *)
Lemma TrimmedInput_not_idempotent :
  let m := {| method_MethodDescriptorProto :=
                rpc "Get" "..pkg.Req" ".pkg.Resp" false false;
              serviceName := "Greeter" |} in
  TrimmedInput m = ".pkg.Req" /\
  TrimPrefix (TrimmedInput m) "." = "pkg.Req" /\
  TrimPrefix (TrimmedInput m) "." <> TrimmedInput m.
Proof.
  cbv zeta. repeat split. discriminate.
Qed.

(** C2 (as amended): stripping the separator a second time changes nothing
    exactly for the strings that do not begin with two separators, and so
    for the input and output type of a method: [TrimPrefix] of the
    stripped name is the stripped name if and only if the name does not
    start with [".."]. A type name as protoc writes it, one separator and
    then a name that does not start with one, is of that kind. *)
Theorem TrimPrefix_dot_twice :
  (forall s : string,
     TrimPrefix (TrimPrefix s ".") "." = TrimPrefix s "." <->
     HasPrefix s ".." = false) /\
  (forall m : method,
     TrimPrefix (TrimmedInput m) "." = TrimmedInput m <->
     HasPrefix (method_GetInputType m) ".." = false) /\
  (forall m : method,
     TrimPrefix (TrimmedOutput m) "." = TrimmedOutput m <->
     HasPrefix (method_GetOutputType m) ".." = false).
Proof.
  split; [exact TrimPrefix_dot_stable|].
  split; intros m; apply TrimPrefix_dot_stable.
Qed.

(** ** The shape of a method *)

Lemma tmplMethod_shape (p : params) (m : method) :
  tmplMethod p m =
  (nl ++ tab ++ nl ++ tab ++ tab ++
   tmplShape (classify (method_GetClientStreaming m) (method_GetServerStreaming m)) p m ++
   nl ++ tab ++ nl ++ nl)%string.
Proof.
  unfold tmplMethod, classify.
  destruct (method_GetClientStreaming m), (method_GetServerStreaming m); simpl tmplShape;
    rewrite !string_app_assoc; reflexivity.
Qed.

(** C3: the choice the template makes from the two streaming flags is a
    total function with the truth table false/false Unary, false/true
    ServerStreaming, true/false ClientStreaming, true/true BidiStreaming:
    every pair of flags has exactly one shape, and the text written for a
    method is the text of the shape of its flags (absent flags read as
    false). *)
Theorem classify_total_truth_table :
  classify false false = Unary /\
  classify false true = ServerStreaming /\
  classify true false = ClientStreaming /\
  classify true true = BidiStreaming /\
  (forall cs ss : bool, exists! shape : RPCShape, classify cs ss = shape) /\
  (forall (p : params) (m : method),
     tmplMethod p m =
     (nl ++ tab ++ nl ++ tab ++ tab ++
      tmplShape (classify (method_GetClientStreaming m) (method_GetServerStreaming m)) p m ++
      nl ++ tab ++ nl ++ nl)%string).
Proof.
  do 4 (split; [reflexivity|]). split.
  - intros cs ss. exists (classify cs ss). split; [reflexivity | now intros ? <-].
  - apply tmplMethod_shape.
Qed.

(** ** [parseRequest] *)

Lemma fold_left_snoc {A B : Type} (f : A -> B) (l : list A) (acc : list B) :
  fold_left (fun acc x => acc ++ [f x]) l acc = acc ++ map f l.
Proof.
  revert acc. induction l as [|x l IH]; intros acc; simpl.
  - now rewrite app_nil_r.
  - rewrite IH. now rewrite <- app_assoc.
Qed.

Lemma appendMethods_map (svc : ServiceDescriptorProto.t) (ms : list method) :
  appendMethods svc ms = ms ++ map (methodOf svc) (ServiceDescriptorProto.GetMethod svc).
Proof. unfold appendMethods. apply (fold_left_snoc (methodOf svc)). Qed.

Lemma Methods_serviceParams (pf : FileDescriptorProto.t) (svc : ServiceDescriptorProto.t) :
  Methods (serviceParams pf svc) =
  map (methodOf svc) (ServiceDescriptorProto.GetMethod svc).
Proof. simpl. now rewrite appendMethods_map. Qed.

Lemma parseRequest_services (req : CodeGeneratorRequest) :
  parseRequest req = map (fun fs => serviceParams (fst fs) (snd fs)) (services req).
Proof.
  unfold parseRequest, services.
  enough (forall files acc,
    fold_left
      (fun ps pf =>
         fold_left (fun ps svc => ps ++ [serviceParams pf svc])
           (FileDescriptorProto.GetService pf) ps) files acc =
    acc ++ map (fun fs => serviceParams (fst fs) (snd fs))
             (flat_map (fun pf => map (pair pf) (FileDescriptorProto.GetService pf)) files))
    as H by apply (H _ []).
  induction files as [|pf files IH]; intros acc; simpl.
  - now rewrite app_nil_r.
  - rewrite IH, (fold_left_snoc (serviceParams pf)), map_app, map_map.
    now rewrite <- app_assoc.
Qed.

Lemma params_GetName_serviceParams (pf : FileDescriptorProto.t)
  (svc : ServiceDescriptorProto.t) :
  params_GetName (serviceParams pf svc) = ServiceDescriptorProto.GetName svc.
Proof. reflexivity. Qed.

(** ** The template *)


(** ** The loop of [generateResponse] *)

Section GeneratorFacts.

Variable unicodeLower : string -> string.
Variable format_Source : string -> string + error.

Lemma generateResponseLoop_accepted (ps : list params) (resp : CodeGeneratorResponse) :
  Forall (accepted format_Source) ps ->
  generateResponseLoop unicodeLower format_Source ps resp =
  Ok {| File := File resp ++ map (generatedFile unicodeLower format_Source) ps |}.
Proof.
  intros H. revert resp. induction H as [|p ps [fmted Hp] _ IH]; intros resp; simpl.
  - rewrite app_nil_r. now destruct resp.
  - rewrite Hp, IH. simpl. rewrite <- app_assoc. simpl.
    unfold generatedFile at 2, formatted. now rewrite Hp.
Qed.

Lemma generateResponseLoop_refused (ps : list params) (resp : CodeGeneratorResponse) :
  Exists (fun p => ~ accepted format_Source p) ps ->
  exists err, generateResponseLoop unicodeLower format_Source ps resp =
              Fatal "unable to go-fmt output" err.
Proof.
  revert resp. induction ps as [|p ps IH]; intros resp H.
  - inversion H.
  - simpl. destruct (format_Source (tmplExecute p)) as [fmted|err] eqn:Hp.
    + apply IH. inversion H as [? ? Hn|]; subst; [|assumption].
      elim Hn. now exists fmted.
    + now exists err.
Qed.

Lemma generateResponseLoop_Ok_accepted (ps : list params)
  (resp resp' : CodeGeneratorResponse) :
  generateResponseLoop unicodeLower format_Source ps resp = Ok resp' ->
  Forall (accepted format_Source) ps.
Proof.
  revert resp. induction ps as [|p ps IH]; intros resp H; [constructor|].
  simpl in H. destruct (format_Source (tmplExecute p)) as [fmted|err] eqn:Hp; [|discriminate].
  constructor; [now exists fmted | eapply IH; eassumption].
Qed.

Lemma generateResponse_accepted (ps : list params) :
  Forall (accepted format_Source) ps ->
  generateResponse unicodeLower format_Source ps =
  Ok {| File := map (generatedFile unicodeLower format_Source) ps |}.
Proof. intros H. unfold generateResponse. now rewrite generateResponseLoop_accepted. Qed.

Lemma generateResponse_Ok (ps : list params) (resp : CodeGeneratorResponse) :
  generateResponse unicodeLower format_Source ps = Ok resp ->
  Forall (accepted format_Source) ps /\
  resp = {| File := map (generatedFile unicodeLower format_Source) ps |}.
Proof.
  intros H. pose proof (generateResponseLoop_Ok_accepted _ _ _ H) as Hall.
  split; [assumption|]. rewrite (generateResponse_accepted _ Hall) in H. congruence.
Qed.

End GeneratorFacts.

(** ** Naming of the generated files *)

(** On a name made of ASCII bytes, [ToLower] does not look at the Unicode
    map. *)
Lemma ToLower_ascii (unicodeLower : string -> string) (s : string) :
  allBytes isASCIIByte s = true ->
  ToLower unicodeLower s = mapBytes lowerByte s.
Proof.
  intros H. unfold ToLower. rewrite H.
  destruct (anyByte isUpperByte s) eqn:U; [reflexivity|].
  clear H. induction s as [|c s IH]; [reflexivity|].
  simpl in U. apply orb_false_elim in U as [Uc Us].
  simpl. rewrite <- IH by assumption. unfold lowerByte. now rewrite Uc.
Qed.

(** C1 (as amended): whenever a response is produced, the file of every
    service of the request is named by the lower-cased name of the service
    (not of the proto file the service stands in) followed by [".go"], in
    the order of the services. *)
Theorem file_named_after_service
  (unicodeLower : string -> string) (format_Source : string -> string + error)
  (req : CodeGeneratorRequest) (resp : CodeGeneratorResponse) :
  generateResponse unicodeLower format_Source (parseRequest req) = Ok resp ->
  map File_Name (File resp) =
  map (fun fs =>
         Some (ToLower unicodeLower (ServiceDescriptorProto.GetName (snd fs)) ++ ".go")%string)
      (services req).
Proof.
  intros H. apply generateResponse_Ok in H as [_ ->]. simpl.
  rewrite parseRequest_services, !map_map.
  apply map_ext. now intros [pf svc].
Qed.

(** The service [Greeter] of [Foo.proto] goes to the file [greeter.go]. *)
Lemma file_named_after_service_fooRequest :
  map File_Name
    (File {| File := map (generatedFile sameBytes keepText) (parseRequest fooRequest) |}) =
  [Some "greeter.go"].
Proof.
  exact (file_named_after_service sameBytes keepText fooRequest
           {| File := map (generatedFile sameBytes keepText) (parseRequest fooRequest) |}
           eq_refl).
Defined.

(** C1 (as stated) fails: for the service [Greeter] of the file
    [Foo.proto], no formatter and no Unicode map make the generator name
    every emitted file after the proto file, as ["foo.proto.go"]. *)
Lemma file_not_named_after_proto_file :
  ~ (forall (unicodeLower : string -> string)
            (format_Source : string -> string + error)
            (resp : CodeGeneratorResponse),
       generateResponse unicodeLower format_Source (parseRequest fooRequest) = Ok resp ->
       map File_Name (File resp) =
       map (fun fs =>
              Some (ToLower unicodeLower (FileDescriptorProto.GetName (fst fs)) ++ ".go")%string)
           (services fooRequest)).
Proof.
  intros H.
  specialize (H sameBytes keepText
                {| File := map (generatedFile sameBytes keepText) (parseRequest fooRequest) |}
                eq_refl).
  discriminate H.
Qed.

(** ** One file per service, one method text per method *)





(** ** A text the formatter refuses *)

(** C8: when the text rendered for some service of the request is refused
    by the formatter, [generateResponse] does not come back with a
    response, whatever the other services are, and [main] ends fatally with
    the message of the formatting step, having written nothing: it returns
    neither a response nor bytes for standard output. *)
Theorem format_failure_is_fatal
  (unicodeLower : string -> string) (format_Source : string -> string + error)
  (proto_Unmarshal : string -> CodeGeneratorRequest + error)
  (proto_Marshal : CodeGeneratorResponse -> string + error)
  (input : string) (stdout : string -> option error)
  (req : CodeGeneratorRequest) (p : params) (err : error) :
  proto_Unmarshal input = inl req ->
  In p (parseRequest req) ->
  format_Source (tmplExecute p) = inr err ->
  (exists err', generateResponse unicodeLower format_Source (parseRequest req) =
                Fatal "unable to go-fmt output" err') /\
  (forall resp, generateResponse unicodeLower format_Source (parseRequest req) <> Ok resp) /\
  (exists err', main unicodeLower format_Source proto_Unmarshal proto_Marshal
                  (inl input) stdout =
                Fatal "unable to go-fmt output" err') /\
  (forall written, main unicodeLower format_Source proto_Unmarshal proto_Marshal
                     (inl input) stdout <> Ok written).
Proof.
  intros Hreq Hin Hp.
  assert (exists err', generateResponse unicodeLower format_Source (parseRequest req) =
                       Fatal "unable to go-fmt output" err') as [err' E].
  { apply generateResponseLoop_refused. apply Exists_exists. exists p. split; [assumption|].
    intros [fmted Hf]. congruence. }
  assert (main unicodeLower format_Source proto_Unmarshal proto_Marshal (inl input) stdout =
          Fatal "unable to go-fmt output" err') as M.
  { unfold main, decodeRequest. rewrite Hreq. simpl. now rewrite E. }
  repeat split.
  - now exists err'.
  - intros resp. rewrite E. discriminate.
  - now exists err'.
  - intros written. rewrite M. discriminate.
Qed.

(** The second service of [namelessFile] prints a method without a name,
    which the stand-in formatter refuses: the run of [main] is fatal, and
    the file of the first service is not written either. *)
Lemma format_failure_is_fatal_namelessRequest :
  exists err',
    main sameBytes refuseNil (fun _ => inl namelessRequest) (fun _ => inl EmptyString)
      (inl EmptyString) (fun _ => None) =
    Fatal "unable to go-fmt output" err'.
Proof.
  refine (proj1 (proj2 (proj2
    (format_failure_is_fatal sameBytes refuseNil
       (fun _ => inl namelessRequest) (fun _ => inl EmptyString)
       EmptyString (fun _ => None) namelessRequest
       (serviceParams namelessFile namelessService)
       (errorString "expected 'IDENT', found '<'") eq_refl _ _)))).
  - right. left. reflexivity.
  - vm_compute. reflexivity.
Defined.

(** ** The generated method bodies *)

Lemma isEOF_true (err : option error) : isEOF err = true <-> err = Some io_EOF.
Proof.
  destruct err as [[|text]|]; simpl; split; intros H; try reflexivity; discriminate.
Qed.


Lemma stream_eq (r r' s s' : nat) (h h' : list event) :
  r = r' -> s = s' -> h = h' ->
  {| received := r; sent := s; history := h |} =
  {| received := r'; sent := s'; history := h' |}.
Proof. now intros -> -> ->. Qed.


Lemma exchanges_snoc (msg : message) (n : nat) :
  exchanges msg n ++ [EvRecv; EvSend msg] = EvRecv :: EvSend msg :: exchanges msg n.
Proof. induction n as [|n IH]; simpl; [reflexivity | now rewrite IH]. Qed.

Section Bodies.

Variable remote : peer.
Variable m : method.

Let z : message := zeroValue (TrimmedOutput m).

(** *** Server streaming *)



(** *** Client streaming *)

Lemma ClientStreamingBody_receives (n fuel : nat) (st : stream) :
  (forall i, i < n -> snd (recvResult remote (received st + i)) = None) ->
  ClientStreamingBody remote m (n + fuel) st =
  ClientStreamingBody remote m fuel
    {| received := received st + n; sent := sent st;
       history := history st ++ repeat EvRecv n |}.
Proof.
  revert st. induction n as [|n IH]; intros st H.
  - simpl. rewrite Nat.add_0_r, app_nil_r. now destruct st.
  - cbn [Nat.add ClientStreamingBody]. unfold Recv.
    pose proof (H 0 (Nat.lt_0_succ n)) as H0. rewrite Nat.add_0_r in H0.
    destruct (recvResult remote (received st)) as [input err]. simpl in H0. subst err.
    cbn [isEOF]. rewrite IH.
    + cbn [received sent history]. f_equal. apply stream_eq; [lia | reflexivity |].
      rewrite <- app_assoc. reflexivity.
    + intros i Hi. cbn [received]. specialize (H (S i)).
      rewrite Nat.add_succ_r in H. apply H. lia.
Qed.

(** *** Both directions streaming *)

Lemma BidiStreamingBody_exchanges (n fuel : nat) (st : stream) :
  (forall i, i < n ->
     snd (recvResult remote (received st + i)) = None /\
     sendResult remote (sent st + i) z = None) ->
  BidiStreamingBody remote m (n + fuel) st =
  BidiStreamingBody remote m fuel
    {| received := received st + n; sent := sent st + n;
       history := history st ++ exchanges z n |}.
Proof.
  revert st. induction n as [|n IH]; intros st H.
  - simpl. rewrite !Nat.add_0_r, app_nil_r. now destruct st.
  - cbn [Nat.add BidiStreamingBody]. unfold Recv, Send. fold z.
    destruct (H 0 (Nat.lt_0_succ n)) as [Hr Hs]. rewrite Nat.add_0_r in Hr, Hs.
    destruct (recvResult remote (received st)) as [input err]. simpl in Hr. subst err.
    cbn [isEOF received sent history]. rewrite Hs. rewrite IH.
    + cbn [received sent history]. f_equal. apply stream_eq; [lia | lia |].
      rewrite <- !app_assoc. reflexivity.
    + intros i Hi. cbn [received sent]. specialize (H (S i)).
      rewrite !Nat.add_succ_r in H. apply H. lia.
Qed.

End Bodies.



(** A peer that refuses the fourth message: four sends, its error. *)
Lemma ServerStreamingBody_stops_at_failure :
  ServerStreamingBody
    (scriptedPeer 0 None (Some (3, errorString "transport is closing")))
    listMethod None freshStream =
  (Some (errorString "transport is closing"),
   {| received := 0; sent := 4;
      history := repeat (EvSend (zeroValue "pkg.Resp")) 4 |}).
Proof. reflexivity. Qed.



(** Without an end of input and without an error the loop goes on: every
    turn is a receive and nothing is sent. *)
Lemma ClientStreamingBody_keeps_receiving
  (remote : peer) (m : method) (fuel : nat) (st : stream) :
  (forall i, i < fuel -> snd (recvResult remote (received st + i)) = None) ->
  ClientStreamingBody remote m fuel st =
  (StillRunning,
   {| received := received st + fuel; sent := sent st;
      history := history st ++ repeat EvRecv fuel |}).
Proof.
  intros H. rewrite <- (Nat.add_0_r fuel) at 1.
  now rewrite (ClientStreamingBody_receives remote m fuel 0 st H).
Qed.



(** With messages coming and every send going through the loop goes on,
    one send per receive. *)
Lemma BidiStreamingBody_keeps_exchanging
  (remote : peer) (m : method) (fuel : nat) (st : stream) :
  (forall i, i < fuel ->
     snd (recvResult remote (received st + i)) = None /\
     sendResult remote (sent st + i) (zeroValue (TrimmedOutput m)) = None) ->
  BidiStreamingBody remote m fuel st =
  (StillRunning,
   {| received := received st + fuel; sent := sent st + fuel;
      history := history st ++ exchanges (zeroValue (TrimmedOutput m)) fuel |}).
Proof.
  intros H. rewrite <- (Nat.add_0_r fuel) at 1.
  now rewrite (BidiStreamingBody_exchanges remote m fuel 0 st H).
Qed.

(** ** The package clause and the service type *)

Lemma tmplPreamble_parts (p : params) :
  tmplPreamble p = (tmplHeader (ProtoName p) ++ tmplDeclarations)%string.
Proof.
  unfold tmplPreamble, tmplHeader, tmplDeclarations, tmplImports.
  rewrite ?string_app_assoc. reflexivity.
Qed.

Lemma tmplExecute_parts (p : params) :
  tmplExecute p =
  (tmplHeader (ProtoName p) ++ tmplDeclarations ++ tmplRange p (Methods p) ++ nl)%string.
Proof.
  unfold tmplExecute. rewrite tmplPreamble_parts. now rewrite !string_app_assoc.
Qed.



(** ** A service with no method *)

(** The text rendered for a service with no method is the header comment
    and the declarations, with no method text, and the file of the service
    is written exactly when the formatter takes that text. *)
Lemma no_method_text (p : params) :
  Methods p = [] ->
  tmplExecute p = (tmplHeader (ProtoName p) ++ tmplDeclarations ++ nl)%string.
Proof.
  intros H. now rewrite tmplExecute_parts, H.
Qed.

Lemma no_method_file
  (unicodeLower : string -> string) (format_Source : string -> string + error)
  (p : params) :
  Methods p = [] ->
  generateResponse unicodeLower format_Source [p] =
  match format_Source (tmplHeader (ProtoName p) ++ tmplDeclarations ++ nl)%string with
  | inl fmted =>
      Ok {| File := [ {| File_Name :=
                           Some (ToLower unicodeLower (params_GetName p) ++ ".go")%string;
                         File_Content := Some fmted |} ] |}
  | inr err => Fatal "unable to go-fmt output" err
  end.
Proof.
  intros H. unfold generateResponse. simpl. rewrite (no_method_text p H).
  now destruct (format_Source _).
Qed.

(** * Further properties of the generator *)

(** ** What [parseRequest] keeps of the request *)

(** X1: every [params] value that [parseRequest] returns comes from a
    service of a file of the request: it carries that service, the name and
    the package of that file, one [method] per method descriptor of the
    service with the descriptors unchanged and in order, every one of them
    with the name of this service as its [serviceName], and an empty
    [fileName]. *)
Theorem parseRequest_params_of_service (req : CodeGeneratorRequest) (p : params) :
  In p (parseRequest req) ->
  exists pf svc,
    In pf (GetProtoFile req) /\
    In svc (FileDescriptorProto.GetService pf) /\
    params_ServiceDescriptorProto p = svc /\
    ProtoName p = FileDescriptorProto.GetName pf /\
    PackageName p = FileDescriptorProto.GetPackage pf /\
    map method_MethodDescriptorProto (Methods p) = ServiceDescriptorProto.GetMethod svc /\
    Forall (fun m => serviceName m = params_GetName p) (Methods p) /\
    fileName p = EmptyString.
Proof.
  rewrite parseRequest_services. intros H.
  apply in_map_iff in H as ([pf svc] & <- & H).
  unfold services in H. apply in_flat_map in H as (pf' & Hpf & H).
  apply in_map_iff in H as (svc' & E & Hsvc). injection E as <- <-.
  exists pf', svc'. cbn [fst snd].
  repeat split; try assumption.
  - rewrite Methods_serviceParams, map_map. cbn. apply map_id.
  - rewrite Methods_serviceParams. apply Forall_forall. intros m Hm.
    apply in_map_iff in Hm as (mtd & <- & _). reflexivity.
Qed.

(** The second service of [namelessFile]. *)
Lemma parseRequest_params_of_service_namelessRequest :
  exists pf svc,
    In pf (GetProtoFile namelessRequest) /\
    In svc (FileDescriptorProto.GetService pf) /\
    params_ServiceDescriptorProto (serviceParams namelessFile namelessService) = svc /\
    ProtoName (serviceParams namelessFile namelessService) = FileDescriptorProto.GetName pf /\
    PackageName (serviceParams namelessFile namelessService) =
      FileDescriptorProto.GetPackage pf /\
    map method_MethodDescriptorProto (Methods (serviceParams namelessFile namelessService)) =
      ServiceDescriptorProto.GetMethod svc /\
    Forall (fun m => serviceName m = params_GetName (serviceParams namelessFile namelessService))
      (Methods (serviceParams namelessFile namelessService)) /\
    fileName (serviceParams namelessFile namelessService) = EmptyString.
Proof.
  apply (parseRequest_params_of_service namelessRequest).
  right. left. reflexivity.
Defined.

Lemma services_app (fs1 fs2 : list FileDescriptorProto.t) :
  services {| ProtoFile := fs1 ++ fs2 |} =
  services {| ProtoFile := fs1 |} ++ services {| ProtoFile := fs2 |}.
Proof. unfold services, GetProtoFile. cbn. apply flat_map_app. Qed.

(** X2: [parseRequest] goes file by file: the result for the files
    [fs1 ++ fs2] is the result for [fs1] followed by the result for [fs2];
    a request with no file gives nothing, and a file that declares no
    service adds nothing wherever it stands. *)
Theorem parseRequest_file_by_file :
  (forall fs1 fs2 : list FileDescriptorProto.t,
     parseRequest {| ProtoFile := fs1 ++ fs2 |} =
     parseRequest {| ProtoFile := fs1 |} ++ parseRequest {| ProtoFile := fs2 |}) /\
  parseRequest {| ProtoFile := [] |} = [] /\
  (forall (fs1 fs2 : list FileDescriptorProto.t) (pf : FileDescriptorProto.t),
     FileDescriptorProto.GetService pf = [] ->
     parseRequest {| ProtoFile := fs1 ++ pf :: fs2 |} =
     parseRequest {| ProtoFile := fs1 ++ fs2 |}).
Proof.
  split; [|split; [reflexivity|]].
  - intros fs1 fs2. now rewrite !parseRequest_services, services_app, map_app.
  - intros fs1 fs2 pf H.
    rewrite !parseRequest_services, !services_app.
    change (pf :: fs2) with ([pf] ++ fs2). rewrite services_app.
    unfold services at 2. cbn. now rewrite H.
Qed.

(** ** How [generateResponse] goes through the services *)

Section GeneratorComposition.

Variable unicodeLower : string -> string.
Variable format_Source : string -> string + error.

Lemma generateResponseLoop_from (ps : list params) (resp : CodeGeneratorResponse) :
  generateResponseLoop unicodeLower format_Source ps resp =
  andThen (generateResponse unicodeLower format_Source ps)
    (fun r => Ok {| File := File resp ++ File r |}).
Proof.
  unfold generateResponse. revert resp.
  induction ps as [|p ps IH]; intros resp.
  - cbn. rewrite app_nil_r. now destruct resp.
  - cbn [generateResponseLoop].
    destruct (format_Source (tmplExecute p)) as [fmted|err]; [|reflexivity].
    rewrite IH. rewrite (IH {| File := [] ++ _ |}).
    destruct (generateResponseLoop unicodeLower format_Source ps {| File := [] |});
      cbn; [|reflexivity].
    now rewrite <- app_assoc.
Qed.

Lemma generateResponse_first_refused (pre rest : list params) (p : params) (err : error) :
  Forall (accepted format_Source) pre ->
  format_Source (tmplExecute p) = inr err ->
  generateResponse unicodeLower format_Source (pre ++ p :: rest) =
  Fatal "unable to go-fmt output" err.
Proof.
  intros Hpre Hp. unfold generateResponse. generalize {| File := [] |}.
  induction Hpre as [|q pre [fmted Hq] _ IH]; intros resp;
    cbn [app generateResponseLoop].
  - now rewrite Hp.
  - rewrite Hq. apply IH.
Qed.

Lemma generateResponseLoop_app (ps1 ps2 : list params) (resp : CodeGeneratorResponse) :
  generateResponseLoop unicodeLower format_Source (ps1 ++ ps2) resp =
  andThen (generateResponseLoop unicodeLower format_Source ps1 resp)
    (generateResponseLoop unicodeLower format_Source ps2).
Proof.
  revert resp. induction ps1 as [|p ps1 IH]; intros resp; [reflexivity|].
  cbn [app generateResponseLoop].
  destruct (format_Source (tmplExecute p)); [apply IH | reflexivity].
Qed.

End GeneratorComposition.

(** X3: [generateResponse] on [ps1 ++ ps2] is [generateResponse] on [ps1]
    and then on [ps2], with the files of the first before the files of the
    second; a fatal end of the first part is the end of the whole, whatever
    the second part is. *)
Theorem generateResponse_app
  (unicodeLower : string -> string) (format_Source : string -> string + error)
  (ps1 ps2 : list params) :
  generateResponse unicodeLower format_Source (ps1 ++ ps2) =
  andThen (generateResponse unicodeLower format_Source ps1) (fun r1 =>
  andThen (generateResponse unicodeLower format_Source ps2) (fun r2 =>
  Ok {| File := File r1 ++ File r2 |})).
Proof.
  unfold generateResponse at 1. rewrite generateResponseLoop_app.
  fold (generateResponse unicodeLower format_Source ps1).
  destruct (generateResponse unicodeLower format_Source ps1) as [r1|msg err];
    [|reflexivity].
  cbn [andThen]. apply generateResponseLoop_from.
Qed.

(** X4: the services are formatted in order and the first refusal ends the
    run: when every text before the one of [p] is taken and the text of [p]
    is refused with [err], the outcome is the fatal end with [err],
    whatever follows [p], be it texts the formatter would take or refuse
    with another error. *)
Theorem generateResponse_first_refusal
  (unicodeLower : string -> string) (format_Source : string -> string + error)
  (pre rest : list params) (p : params) (err : error) :
  Forall (accepted format_Source) pre ->
  format_Source (tmplExecute p) = inr err ->
  generateResponse unicodeLower format_Source (pre ++ p :: rest) =
  Fatal "unable to go-fmt output" err.
Proof. apply generateResponse_first_refused. Qed.

(** In [namelessRequest] the first service is taken and the second one
    refused. *)
Lemma generateResponse_first_refusal_namelessRequest :
  generateResponse sameBytes refuseNil
    ([serviceParams namelessFile alphaService] ++
     serviceParams namelessFile namelessService :: []) =
  Fatal "unable to go-fmt output" (errorString "expected 'IDENT', found '<'").
Proof.
  apply (generateResponse_first_refusal sameBytes refuseNil
           [serviceParams namelessFile alphaService] []
           (serviceParams namelessFile namelessService)).
  - constructor; [|constructor]. eexists. vm_compute. reflexivity.
  - vm_compute. reflexivity.
Defined.

(** X5: [generateResponse] comes back with a response exactly when the
    formatter takes the text of every service, and the response is then
    the list of the files of the services, one each, in order: there is no
    response with some of the files. *)
Theorem generateResponse_Ok_iff
  (unicodeLower : string -> string) (format_Source : string -> string + error)
  (ps : list params) (resp : CodeGeneratorResponse) :
  generateResponse unicodeLower format_Source ps = Ok resp <->
  Forall (accepted format_Source) ps /\
  resp = {| File := map (generatedFile unicodeLower format_Source) ps |}.
Proof.
  split.
  - apply generateResponse_Ok.
  - intros [H ->]. now apply generateResponse_accepted.
Qed.

(** X6: a request without any service, with no file or with files that
    declare none, gets the empty response, and the formatter has no say in
    it. *)
Theorem generateResponse_no_service
  (unicodeLower : string -> string) (format_Source : string -> string + error)
  (req : CodeGeneratorRequest) :
  Forall (fun pf => FileDescriptorProto.GetService pf = []) (GetProtoFile req) ->
  parseRequest req = [] /\
  generateResponse unicodeLower format_Source (parseRequest req) = Ok {| File := [] |}.
Proof.
  intros H.
  assert (parseRequest req = []) as E.
  { rewrite parseRequest_services. unfold services.
    induction H as [|pf fs Hpf _ IH]; [reflexivity|].
    cbn [flat_map]. now rewrite Hpf. }
  now rewrite E.
Qed.

(** A file with messages only, here with no service, under a formatter
    that would refuse every text. *)
Lemma generateResponse_no_service_run :
  parseRequest {| ProtoFile := [FileDescriptorProto.mk (Some "types.proto") (Some "pkg") []] |}
    = [] /\
  generateResponse sameBytes (fun _ => inr io_EOF)
    (parseRequest
       {| ProtoFile := [FileDescriptorProto.mk (Some "types.proto") (Some "pkg") []] |}) =
  Ok {| File := [] |}.
Proof.
  apply (generateResponse_no_service sameBytes (fun _ => inr io_EOF)
           {| ProtoFile := [FileDescriptorProto.mk (Some "types.proto") (Some "pkg") []] |}).
  constructor; [reflexivity | constructor].
Defined.

(** ** The run of [main] *)


Lemma generateResponseLoop_Fatal_msg
  (unicodeLower : string -> string) (format_Source : string -> string + error)
  (ps : list params) (resp : CodeGeneratorResponse) (msg : string) (err : error) :
  generateResponseLoop unicodeLower format_Source ps resp = Fatal msg err ->
  msg = "unable to go-fmt output".
Proof.
  revert resp. induction ps as [|p ps IH]; intros resp; cbn [generateResponseLoop].
  - discriminate.
  - destruct (format_Source (tmplExecute p)); [apply IH | now intros [= <- _]].
Qed.

(** X8: when [main] ends fatally, the message names the stage that failed
    and the error is the one that stage got: reading, decoding, formatting
    (after a good read and decode), encoding (after a response was
    generated) or writing (after it was encoded). No other message
    occurs. *)
Theorem main_Fatal_stage
  (unicodeLower : string -> string) (format_Source : string -> string + error)
  (proto_Unmarshal : string -> CodeGeneratorRequest + error)
  (proto_Marshal : CodeGeneratorResponse -> string + error)
  (stdin : string + error) (stdout : string -> option error)
  (msg : string) (err : error) :
  main unicodeLower format_Source proto_Unmarshal proto_Marshal stdin stdout =
    Fatal msg err ->
  (msg = "unable to read stdin" /\ stdin = inr err) \/
  (exists input, stdin = inl input /\
     ((msg = "unable to marshal stdin as protobuf" /\ proto_Unmarshal input = inr err) \/
      (exists req, proto_Unmarshal input = inl req /\
         ((msg = "unable to go-fmt output" /\
           generateResponse unicodeLower format_Source (parseRequest req) = Fatal msg err) \/
          (exists resp,
             generateResponse unicodeLower format_Source (parseRequest req) = Ok resp /\
             ((msg = "unable to marshal response to protobuf" /\
               proto_Marshal resp = inr err) \/
              (exists outBytes,
                 msg = "unable to write protobuf to stdout" /\
                 proto_Marshal resp = inl outBytes /\
                 stdout outBytes = Some err))))))).
Proof.
  unfold main, decodeRequest, encodeResponse. intros H.
  destruct stdin as [input|e]; [|injection H as <- <-; now left].
  right. exists input. split; [reflexivity|].
  destruct (proto_Unmarshal input) as [req|e] eqn:Hreq;
    [|injection H as <- <-; now left].
  right. exists req. split; [reflexivity|]. cbn [andThen] in H.
  destruct (generateResponse unicodeLower format_Source (parseRequest req))
    as [resp|msg' e] eqn:Hresp; cbn [andThen] in H.
  - right. exists resp. split; [reflexivity|].
    destruct (proto_Marshal resp) as [out|e] eqn:Hout;
      [|injection H as <- <-; now left].
    destruct (stdout out) as [e|] eqn:Hw; [|discriminate].
    injection H as <- <-. right. now exists out.
  - injection H as <- <-. left. split; [|reflexivity].
    now apply generateResponseLoop_Fatal_msg in Hresp.
Qed.

(** A request that decodes and whose second service is refused: of the
    five stages it is the formatting whose message ends the run. *)
Lemma main_Fatal_stage_namelessRequest :
  generateResponse sameBytes refuseNil (parseRequest namelessRequest) =
  Fatal "unable to go-fmt output" (errorString "expected 'IDENT', found '<'").
Proof.
  destruct (main_Fatal_stage sameBytes refuseNil
              (fun _ => inl namelessRequest) (fun _ => inl EmptyString)
              (inl EmptyString) (fun _ => None)
              "unable to go-fmt output" (errorString "expected 'IDENT', found '<'")
              eq_refl)
    as [[E _] | (input & _ & [[E _] | (req & Hreq & [[_ H] | (resp & Hr & _)])])].
  - discriminate E.
  - discriminate E.
  - injection Hreq as <-. exact H.
  - injection Hreq as <-. vm_compute in Hr. discriminate Hr.
Defined.

(** ** The functions of package [strings] *)

Lemma lowerByte_ascii_lower (c : ascii) :
  isUpperByte (lowerByte c) = false /\
  (isASCIIByte c = true -> isASCIIByte (lowerByte c) = true) /\
  (isUpperByte c = false -> lowerByte c = c).
Proof.
  destruct c as [[] [] [] [] [] [] [] []]; vm_compute; repeat split; congruence.
Qed.

Lemma mapBytes_length (f : ascii -> ascii) (s : string) :
  String.length (mapBytes f s) = String.length s.
Proof. induction s as [|c s IH]; simpl; congruence. Qed.

Lemma mapBytes_lowerByte_ascii (s : string) :
  allBytes isASCIIByte s = true ->
  allBytes isASCIIByte (mapBytes lowerByte s) = true.
Proof.
  induction s as [|c s IH]; [reflexivity|]. simpl.
  intros H. apply andb_true_iff in H as [Hc Hs].
  apply andb_true_iff. split; [now apply lowerByte_ascii_lower | now apply IH].
Qed.

Lemma mapBytes_lowerByte_no_upper (s : string) :
  anyByte isUpperByte (mapBytes lowerByte s) = false.
Proof.
  induction s as [|c s IH]; [reflexivity|]. simpl.
  rewrite IH. now destruct (lowerByte_ascii_lower c) as [-> _].
Qed.

(** X9: on a string of ASCII bytes, [strings.ToLower] does not consult the
    Unicode tables and lowers byte by byte: the result has the length of
    the string, is made of ASCII bytes none of which is an upper-case
    letter, and lowering it again changes nothing. *)
Theorem ToLower_ascii_lower (unicodeLower : string -> string) (s : string) :
  allBytes isASCIIByte s = true ->
  ToLower unicodeLower s = mapBytes lowerByte s /\
  String.length (ToLower unicodeLower s) = String.length s /\
  allBytes isASCIIByte (ToLower unicodeLower s) = true /\
  anyByte isUpperByte (ToLower unicodeLower s) = false /\
  ToLower unicodeLower (ToLower unicodeLower s) = ToLower unicodeLower s.
Proof.
  intros H. rewrite (ToLower_ascii unicodeLower s H).
  split; [reflexivity|]. split; [apply mapBytes_length|].
  split; [now apply mapBytes_lowerByte_ascii|].
  split; [apply mapBytes_lowerByte_no_upper|].
  unfold ToLower. rewrite (mapBytes_lowerByte_ascii s H).
  now rewrite mapBytes_lowerByte_no_upper.
Qed.

(** The service name [Greeter] under a Unicode map that would turn every
    string into [X]. *)
Lemma ToLower_ascii_lower_Greeter :
  ToLower (fun _ => "X") "Greeter" = "greeter" /\
  String.length (ToLower (fun _ => "X") "Greeter") = 7 /\
  allBytes isASCIIByte (ToLower (fun _ => "X") "Greeter") = true /\
  anyByte isUpperByte (ToLower (fun _ => "X") "Greeter") = false /\
  ToLower (fun _ => "X") (ToLower (fun _ => "X") "Greeter") =
    ToLower (fun _ => "X") "Greeter".
Proof. exact (ToLower_ascii_lower (fun _ => "X") "Greeter" eq_refl). Defined.

Lemma prefix_app (a s : string) : String.prefix a (a ++ s)%string = true.
Proof.
  induction a as [|c a IH]; [apply prefix_empty|].
  cbn [append]. rewrite prefix_cons.
  destruct (ascii_dec c c); [exact IH | congruence].
Qed.

Lemma prefix_split (a s : string) :
  String.prefix a s = true -> exists r, s = (a ++ r)%string.
Proof.
  revert s. induction a as [|c a IH]; intros s H.
  - now exists s.
  - destruct s as [|d s]; [discriminate|].
    rewrite prefix_cons in H. destruct (ascii_dec c d) as [<-|]; [|discriminate].
    destruct (IH s H) as [r ->]. now exists r.
Qed.

Lemma string_length_app (a b : string) :
  String.length (a ++ b)%string = String.length a + String.length b.
Proof. induction a as [|c a IH]; simpl; [reflexivity | now rewrite IH]. Qed.

Lemma substring_skip (a s : string) (n : nat) :
  substring (String.length a) n (a ++ s)%string = substring 0 n s.
Proof. induction a as [|c a IH]; [reflexivity | exact IH]. Qed.

Lemma TrimPrefix_app (a s : string) : TrimPrefix (a ++ s)%string a = s.
Proof.
  unfold TrimPrefix, HasPrefix. rewrite prefix_app, substring_skip, string_length_app.
  replace (String.length a + String.length s - String.length a) with (String.length s) by lia.
  apply substring_whole.
Qed.

(** X10: [strings.TrimPrefix] takes a prefix away and nothing else: it
    undoes putting the prefix in front; on a string that starts with the
    prefix, putting the prefix back in front of the result gives the
    string, and the result is shorter by the length of the prefix; a string
    that does not start with the prefix comes back as it is. *)
Theorem TrimPrefix_round_trip (s a : string) :
  TrimPrefix (a ++ s)%string a = s /\
  (HasPrefix s a = true ->
   (a ++ TrimPrefix s a)%string = s /\
   String.length (TrimPrefix s a) = String.length s - String.length a) /\
  (HasPrefix s a = false -> TrimPrefix s a = s).
Proof.
  split; [apply TrimPrefix_app|]. split.
  - intros H. destruct (prefix_split a s H) as [r ->].
    rewrite TrimPrefix_app, string_length_app. split; [reflexivity | lia].
  - intros H. unfold TrimPrefix. now rewrite H.
Qed.

(** X11: the type references of the template: a type name that protoc
    qualifies with a leading separator is written without it, whatever
    follows the separator; a name without the separator, and so the empty
    name of an absent type, is written as it is; and no reference is
    longer than the name it comes from. *)
Theorem Trimmed_type_references (m : method) :
  (forall n, method_GetInputType m = ("." ++ n)%string -> TrimmedInput m = n) /\
  (forall n, method_GetOutputType m = ("." ++ n)%string -> TrimmedOutput m = n) /\
  (HasPrefix (method_GetInputType m) "." = false ->
   TrimmedInput m = method_GetInputType m) /\
  (HasPrefix (method_GetOutputType m) "." = false ->
   TrimmedOutput m = method_GetOutputType m) /\
  (MethodDescriptorProto.InputType (method_MethodDescriptorProto m) = None ->
   TrimmedInput m = EmptyString) /\
  (MethodDescriptorProto.OutputType (method_MethodDescriptorProto m) = None ->
   TrimmedOutput m = EmptyString) /\
  String.length (TrimmedInput m) <= String.length (method_GetInputType m) /\
  String.length (TrimmedOutput m) <= String.length (method_GetOutputType m).
Proof.
  assert (forall s, String.length (TrimPrefix s ".") <= String.length s) as Hlen.
  { intros s. destruct (HasPrefix s ".") eqn:E.
    - destruct (prefix_split "." s E) as [r ->].
      rewrite TrimPrefix_app, string_length_app. lia.
    - unfold TrimPrefix. now rewrite E. }
  unfold TrimmedInput, TrimmedOutput.
  repeat split.
  - intros n ->. apply TrimPrefix_app.
  - intros n ->. apply TrimPrefix_app.
  - intros H. unfold TrimPrefix. now rewrite H.
  - intros H. unfold TrimPrefix. now rewrite H.
  - unfold method_GetInputType, MethodDescriptorProto.GetInputType. now intros ->.
  - unfold method_GetOutputType, MethodDescriptorProto.GetOutputType. now intros ->.
  - apply Hlen.
  - apply Hlen.
Qed.

(** ** What the generated bodies never do *)

Section BodyInvariants.

Variable remote : peer.
Variable m : method.

Let z : message := zeroValue (TrimmedOutput m).









End BodyInvariants.




Section BodyFuel.

Variable remote : peer.
Variable m : method.





End BodyFuel.




(** ** The lines of the rendered text *)

Lemma lines_nonempty (s : string) : lines s <> [].
Proof.
  induction s as [|c s IH]; cbn; [discriminate|].
  destruct (isLineBreak c); [discriminate|].
  destruct (lines s); [contradiction | discriminate].
Qed.

Lemma onFirstLine_app (a b : string) (ls : list string) :
  onFirstLine a (onFirstLine b ls) = onFirstLine (a ++ b)%string ls.
Proof.
  destruct ls; unfold onFirstLine; [reflexivity | now rewrite string_app_assoc].
Qed.

Lemma onFirstLine_cons (a l : string) (ls : list string) :
  onFirstLine a (l :: ls) = (a ++ l)%string :: ls.
Proof. reflexivity. Qed.

(** A piece without a line break stays on the line it is on. *)
Lemma lines_app (x s : string) :
  noLineBreak x = true -> lines (x ++ s)%string = onFirstLine x (lines s).
Proof.
  induction x as [|c x IH]; intros H.
  - cbn. pose proof (lines_nonempty s). now destruct (lines s).
  - cbn in H. apply andb_true_iff in H as [Hc Hx].
    cbn [append lines]. apply negb_true_iff in Hc. rewrite Hc, (IH Hx).
    now rewrite onFirstLine_app.
Qed.

Lemma lines_nl_app (s : string) : lines (nl ++ s)%string = EmptyString :: lines s.
Proof. reflexivity. Qed.

Lemma lines_nl : lines nl = [EmptyString; EmptyString].
Proof. reflexivity. Qed.

Lemma cons_app_eq {A : Type} (x : A) (T L R : list A) :
  T = L ++ R -> x :: T = (x :: L) ++ R.
Proof. now intros ->. Qed.

Lemma noLineBreak_app (a b : string) :
  noLineBreak (a ++ b)%string = noLineBreak a && noLineBreak b.
Proof.
  unfold noLineBreak. induction a as [|c a IH]; [reflexivity|].
  cbn. now rewrite IH, andb_assoc.
Qed.

Lemma noLineBreak_TrimPrefix_dot (s : string) :
  noLineBreak s = true -> noLineBreak (TrimPrefix s ".") = true.
Proof.
  destruct s as [|c s]; [reflexivity|]. rewrite TrimPrefix_dot_cons.
  destruct (Ascii.eqb c "."); [|easy].
  cbn. intros H. now apply andb_true_iff in H as [_ H].
Qed.

Lemma methodLineSafe_parts (p : params) (m : method) :
  noLineBreak (PackageName p) = true -> methodLineSafe m = true ->
  noLineBreak (printName m) = true /\ noLineBreak (TrimmedInput m) = true /\
  noLineBreak (TrimmedOutput m) = true /\ noLineBreak (StreamName m) = true.
Proof.
  intros Hp H. unfold methodLineSafe in H.
  apply andb_true_iff in H as [H Hout]. apply andb_true_iff in H as [H Hin].
  apply andb_true_iff in H as [Hsvc Hname].
  repeat split.
  - unfold printName. destruct (MethodDescriptorProto.Name _); [assumption | reflexivity].
  - now apply noLineBreak_TrimPrefix_dot.
  - now apply noLineBreak_TrimPrefix_dot.
  - unfold StreamName. rewrite !noLineBreak_app, Hsvc.
    unfold method_GetName, MethodDescriptorProto.GetName.
    destruct (MethodDescriptorProto.Name _); [now rewrite Hname | reflexivity].
Qed.

(** Splits a text written as pieces joined by [++] into its lines, as long
    as every piece is [nl], a literal without a line break, or a string
    known to have none. *)
Ltac split_lines :=
  repeat first
    [ rewrite lines_nl_app
    | rewrite lines_app by (first [assumption | reflexivity]) ];
  repeat rewrite onFirstLine_cons.

Lemma lines_tmplMethod (p : params) (m : method) (rest : string) :
  noLineBreak (PackageName p) = true -> methodLineSafe m = true ->
  exists L, lines (tmplMethod p m ++ rest)%string = L ++ lines rest /\
            filter isDeclLine L = [funcHead p m].
Proof.
  intros Hp Hm. destruct (methodLineSafe_parts p m Hp Hm) as (Hn & Hi & Ho & Hs).
  unfold tmplMethod, funcHead, classify.
  destruct (method_GetClientStreaming m), (method_GetServerStreaming m);
    [ unfold tmplBidiStreaming | unfold tmplClientStreaming
    | unfold tmplServerStreaming | unfold tmplUnary ];
    rewrite ?string_app_assoc; split_lines;
    (eexists; split; [repeat apply cons_app_eq; symmetry; apply app_nil_l | reflexivity]).
Qed.

Lemma lines_tmplRange (p : params) (ms : list method) (rest : string) :
  noLineBreak (PackageName p) = true -> forallb methodLineSafe ms = true ->
  exists L, lines (tmplRange p ms ++ rest)%string = L ++ lines rest /\
            filter isDeclLine L = map (funcHead p) ms.
Proof.
  intros Hp. induction ms as [|m ms IH]; intros Hms.
  - exists []. split; reflexivity.
  - cbn [forallb] in Hms. apply andb_true_iff in Hms as [Hm Hms].
    cbn [tmplRange]. rewrite string_app_assoc.
    destruct (lines_tmplMethod p m (tmplRange p ms ++ rest) Hp Hm) as (L1 & E1 & F1).
    destruct (IH Hms) as (L2 & E2 & F2).
    exists (L1 ++ L2). split.
    + now rewrite E1, E2, app_assoc.
    + now rewrite filter_app, F1, F2.
Qed.

Lemma lines_tmplPreamble (p : params) (rest : string) :
  noLineBreak (ProtoName p) = true ->
  lines (tmplPreamble p ++ rest)%string =
  [ EmptyString;
    "// Code initially generated by protoc-gen-grpc-goservice";
    ("// source: " ++ ProtoName p)%string;
    EmptyString;
    "package main";
    EmptyString;
    "import (";
    (tab ++ dq ++ "io" ++ dq)%string;
    EmptyString;
    (tab ++ dq ++ "golang.org/x/net/context" ++ dq)%string;
    ")";
    EmptyString;
    "type service struct{}";
    EmptyString ] ++ lines rest.
Proof.
  intros H. unfold tmplPreamble. rewrite ?string_app_assoc. split_lines.
  rewrite (string_app_nil_r (ProtoName p)). reflexivity.
Qed.

Lemma lines_tmplExecute (p : params) :
  lineSafe p = true ->
  filter isDeclLine (lines (tmplExecute p)) =
  ["package main"; "import ("; "type service struct{}"] ++ map (funcHead p) (Methods p).
Proof.
  intros H. unfold lineSafe in H.
  apply andb_true_iff in H as [H Hms]. apply andb_true_iff in H as [Hproto Hpkg].
  unfold tmplExecute. rewrite (lines_tmplPreamble p _ Hproto).
  destruct (lines_tmplRange p (Methods p) nl Hpkg Hms) as (L & E & F).
  rewrite E, !filter_app, F, lines_nl.
  cbn. now rewrite app_nil_r.
Qed.

(** X17: when no string of the descriptor holds a line break, the lines of
    the rendered text that open with [package], [import], [type] or [func]
    in the first column are, in this order, the package clause of [main],
    the import, the type [service], and one function head per method of the
    service in method order, each with the name and the parameters of its
    shape: a name or a type cannot add, hide or move a declaration. *)
Theorem declaration_lines (p : params) :
  lineSafe p = true ->
  filter isDeclLine (lines (tmplExecute p)) =
  ["package main"; "import ("; "type service struct{}"] ++ map (funcHead p) (Methods p).
Proof. apply lines_tmplExecute. Qed.


(** The service [Greeter] with a method of each shape. *)
Lemma declaration_lines_greeter :
  filter isDeclLine (lines (tmplExecute (serviceParams greeterFile greeterService))) =
  [ "package main"; "import ("; "type service struct{}";
    "func (s *service) Get(ctx context.Context, input *pkg.Req) (*pkg.Resp, error) {";
    "func (s *service) List(input *pkg.Req, stream pkg.Greeter_ListServer) error {";
    "func (s *service) Put(stream pkg.Greeter_PutServer) error {";
    "func (s *service) Chat(stream pkg.Greeter_ChatServer) error {" ].
Proof.
  exact (declaration_lines (serviceParams greeterFile greeterService) eq_refl).
Defined.

(** X18: when the name of the proto file holds no line break, the first
    line of the rendered text that is neither empty nor a comment is the
    package clause [package main], whatever the service, its package and
    its methods are. *)
Theorem package_clause_first (p : params) :
  noLineBreak (ProtoName p) = true ->
  firstCodeLine (tmplExecute p) = Some "package main".
Proof.
  intros H. unfold firstCodeLine, tmplExecute. rewrite (lines_tmplPreamble p _ H).
  reflexivity.
Qed.

Lemma package_clause_first_greeter :
  firstCodeLine (tmplExecute (serviceParams greeterFile greeterService)) =
  Some "package main".
Proof.
  exact (package_clause_first (serviceParams greeterFile greeterService) eq_refl).
Defined.

(** X19: the name of the proto file goes into the header comment as it is:
    when it holds a line break, what follows the break is not part of the
    comment but a line of its own in front of the package clause, and if
    that line is not itself empty or a comment, it and not the package
    clause is the first line of code of the text. *)
Theorem header_comment_not_escaped (p : params) (a b : string) :
  ProtoName p = (a ++ nl ++ b)%string ->
  noLineBreak a = true -> noLineBreak b = true ->
  (exists L, lines (tmplExecute p) =
     [ EmptyString;
       "// Code initially generated by protoc-gen-grpc-goservice";
       ("// source: " ++ a)%string;
       b;
       EmptyString;
       "package main" ] ++ L) /\
  (isCommentOrBlank b = false -> firstCodeLine (tmplExecute p) = Some b).
Proof.
  intros Hp Ha Hb.
  assert (exists L, lines (tmplExecute p) =
     [ EmptyString;
       "// Code initially generated by protoc-gen-grpc-goservice";
       ("// source: " ++ a)%string;
       b;
       EmptyString;
       "package main" ] ++ L) as [L E].
  { unfold tmplExecute, tmplPreamble. rewrite Hp, ?string_app_assoc. split_lines.
    rewrite (string_app_nil_r a), (string_app_nil_r b). eexists. reflexivity. }
  split; [now exists L|].
  intros Hcode. unfold firstCodeLine. rewrite E. cbn [app find].
  cbn. now rewrite Hcode.
Qed.

Lemma header_comment_not_escaped_brokenNameFile :
  firstCodeLine (tmplExecute (serviceParams brokenNameFile greeterService)) =
  Some "var hidden = 1".
Proof.
  exact (proj2 (header_comment_not_escaped
                  (serviceParams brokenNameFile greeterService)
                  "greeter.proto" "var hidden = 1" eq_refl eq_refl eq_refl) eq_refl).
Defined.

Lemma tmplRange_ext (p p' : params) (ms : list method) :
  PackageName p = PackageName p' -> tmplRange p ms = tmplRange p' ms.
Proof.
  intros H. induction ms as [|m ms IH]; [reflexivity|].
  cbn [tmplRange]. rewrite IH. f_equal.
  unfold tmplMethod, tmplBidiStreaming, tmplClientStreaming, tmplServerStreaming.
  now rewrite H.
Qed.

(** X20: the template reads three things of [params]: the name of the
    proto file, the name of the package and the methods. The service
    descriptor carried along and the field [fileName] do not reach the
    text, so the name of the service stands in it only where a method
    brings it, in the stream type of a streaming method. *)
Theorem tmplExecute_reads (p p' : params) :
  ProtoName p = ProtoName p' -> PackageName p = PackageName p' ->
  Methods p = Methods p' ->
  tmplExecute p = tmplExecute p'.
Proof.
  intros H1 H2 H3. unfold tmplExecute, tmplPreamble.
  now rewrite H1, H3, (tmplRange_ext p p' _ H2).
Qed.

(** Two services without methods in the same file get the same text. *)
Lemma tmplExecute_reads_no_method :
  tmplExecute (serviceParams greeterFile (ServiceDescriptorProto.mk (Some "Alpha") [])) =
  tmplExecute (serviceParams greeterFile (ServiceDescriptorProto.mk (Some "Beta") [])).
Proof.
  exact (tmplExecute_reads
           (serviceParams greeterFile (ServiceDescriptorProto.mk (Some "Alpha") []))
           (serviceParams greeterFile (ServiceDescriptorProto.mk (Some "Beta") []))
           eq_refl eq_refl eq_refl).
Defined.




(** ** The files of a response *)

Lemma HasSuffix_app (a suffix : string) : HasSuffix (a ++ suffix)%string suffix = true.
Proof.
  unfold HasSuffix. rewrite string_length_app.
  replace (String.length a + String.length suffix - String.length suffix)
    with (String.length a) by lia.
  rewrite substring_skip, substring_whole, String.eqb_refl.
  apply andb_true_iff. split; [|reflexivity]. apply Nat.leb_le. lia.
Qed.

(** X22: every file of a response has its name and its content set; the
    name ends with [.go]; the content is what the formatter returned for
    the text of a service. For a service name of ASCII bytes the name of
    the file is three bytes longer than the name of the service, and a
    service without a name gets the file [.go]. *)
Theorem response_files
  (unicodeLower : string -> string) (format_Source : string -> string + error)
  (ps : list params) (resp : CodeGeneratorResponse) (f : CodeGeneratorResponse_File) :
  generateResponse unicodeLower format_Source ps = Ok resp ->
  In f (File resp) ->
  exists p name content,
    In p ps /\
    File_Name f = Some name /\ File_Content f = Some content /\
    format_Source (tmplExecute p) = inl content /\
    name = (ToLower unicodeLower (params_GetName p) ++ ".go")%string /\
    HasSuffix name ".go" = true /\
    (allBytes isASCIIByte (params_GetName p) = true ->
     String.length name = String.length (params_GetName p) + 3) /\
    (ServiceDescriptorProto.Name (params_ServiceDescriptorProto p) = None ->
     name = ".go").
Proof.
  intros H Hf. apply generateResponse_Ok in H as [Hall ->].
  cbn [File] in Hf. apply in_map_iff in Hf as (p & <- & Hp).
  rewrite Forall_forall in Hall. destruct (Hall p Hp) as [content Hc].
  exists p, (ToLower unicodeLower (params_GetName p) ++ ".go")%string, content.
  split; [assumption|]. split; [reflexivity|].
  split; [unfold generatedFile, formatted; cbn [File_Content]; now rewrite Hc|].
  split; [assumption|]. split; [reflexivity|].
  split; [apply HasSuffix_app|]. split.
  - intros Hascii. rewrite string_length_app, (ToLower_ascii unicodeLower _ Hascii).
    now rewrite mapBytes_length.
  - unfold params_GetName, ServiceDescriptorProto.GetName. now intros ->.
Qed.

(** The file of the service [Greeter] of [fooRequest]. *)
Lemma response_files_fooRequest :
  exists name : string, name = "greeter.go" /\ HasSuffix name ".go" = true.
Proof.
  destruct (response_files sameBytes keepText (parseRequest fooRequest)
              {| File := map (generatedFile sameBytes keepText) (parseRequest fooRequest) |}
              (generatedFile sameBytes keepText
                 (serviceParams
                    (FileDescriptorProto.mk (Some "Foo.proto") (Some "pkg")
                       [ ServiceDescriptorProto.mk (Some "Greeter") [] ])
                    (ServiceDescriptorProto.mk (Some "Greeter") [])))
              eq_refl (or_introl eq_refl))
    as (p & name & content & _ & Hname & _ & _ & _ & Hsuffix & _).
  exists name. split; [|exact Hsuffix].
  vm_compute in Hname. now injection Hname as <-.
Defined.
